(** * Lec-02/abstraction.ts: the [Car] interface and the [SportsCar] class

    A shallow embedding of the TypeScript teaching example.  A method of
    the class mutates the fields of [this] and writes lines with
    [console.log]; it is modelled as a function from the object to a
    result, the updated object and the lines it logged, in order. *)

From Stdlib Require Import ZArith String List Bool Lia DecimalString.
Import ListNotations.

Open Scope string_scope.
Open Scope list_scope.
Open Scope Z_scope.

(** ** Methods: state passing over [this], plus the console lines *)

Definition Method (T A : Type) : Type := T -> A * T * list string.

Section MethodOps.
Context {T : Type}.

Definition ret {A : Type} (a : A) : Method T A :=
  fun this => (a, this, []).

Definition bind {A B : Type} (m : Method T A) (k : A -> Method T B)
  : Method T B :=
  fun this =>
    let '(a, this1, out1) := m this in
    let '(b, this2, out2) := k a this1 in
    (b, this2, out1 ++ out2).

(** Reading [this]. *)
Definition get : Method T T :=
  fun this => (this, this, []).

(** A field assignment [this.f = e] or [this.f += e]. *)
Definition assign (f : T -> T) : Method T unit :=
  fun this => (tt, f this, []).

(** [console.log(line)]. *)
Definition console_log (line : string) : Method T unit :=
  fun this => (tt, this, [line]).

(** The object a method leaves behind, and what it printed. *)
Definition exec {A : Type} (m : Method T A) (this : T) : T :=
  snd (fst (m this)).

Definition output {A : Type} (m : Method T A) (this : T) : list string :=
  snd (m this).
End MethodOps.

Declare Scope method_scope.
Delimit Scope method_scope with method.
Notation "x <- c1 ;; c2" := (bind c1 (fun x => c2))
  (at level 61, c1 at next level, right associativity) : method_scope.
Notation "c1 ;; c2" := (bind c1 (fun _ => c2))
  (at level 61, right associativity) : method_scope.
Open Scope method_scope.

(** ** Numbers

    The fields [currentSpeed] and [currentGear] are TypeScript [number]s,
    that is IEEE 754 binary64 values.  They only ever hold integers:
    they start at 0 and are changed by adding or subtracting 1 or 20, or
    reset to 0.  An integer-valued number is modelled by the integer it
    denotes, and [+=] and [-=] by the exact sum or difference rounded to
    the nearest number, ties to the even significand.  Integers of
    magnitude up to 2^53 are numbers; above, a number is a multiple of
    the power of two that leaves it a 53-bit significand. *)

Module Number.

(** The number nearest to the integer [a >= 0]. *)
Definition round_mag (a : Z) : Z :=
  if a <=? 2 ^ 53 then a
  else
    let u := 2 ^ (Z.log2 a - 52) in
    let q := a / u in
    let r := a mod u in
    if 2 * r <? u then q * u
    else if u <? 2 * r then (q + 1) * u
    else if Z.even q then q * u
    else (q + 1) * u.

(** The number nearest to the integer [z]: sign and magnitude. *)
Definition round (z : Z) : Z := Z.sgn z * round_mag (Z.abs z).

(** [x + y] and [x - y] on integer-valued numbers.  The class only adds
    or subtracts 1 and 20, and that far beyond the largest number the
    result is rounded back to it, so no sum here is infinite. *)
Definition add (x y : Z) : Z := round (x + y).
Definition sub (x y : Z) : Z := round (x - y).

(** [Number.MAX_VALUE], the largest finite number. *)
Definition max_value : Z := (2 ^ 53 - 1) * 2 ^ 971.

(** The integers that are numbers: fixed by rounding, and finite. *)
Definition is_number (z : Z) : bool :=
  (round z =? z) && (Z.abs z <=? max_value).

End Number.

(** [`${n}`] for an integer of magnitude up to 2^53: its decimal digits,
    with a leading minus sign when negative.  (A larger number prints
    the shortest digits that tell it from its neighbours, padded with
    zeros; no statement below relies on the digits of one.) *)
Definition number_toString (n : Z) : string :=
  NilZero.string_of_int (Z.to_int n).

(** ** interface Car *)

Class Car (T : Type) : Type := {
  startEngine : Method T unit;
  shiftGear : Method T unit;
  accelerate : Method T unit;
  brake : Method T unit;
  stopEngine : Method T unit
}.

(** ** class SportsCar implements Car *)

Module SportsCar.

(** The private fields.  [currentSpeed] and [currentGear] hold
    integer-valued numbers, each given by the integer it denotes. *)
Record t : Type := mk {
  brand : string;
  model : string;
  isEngineOn : bool;
  currentSpeed : Z;
  currentGear : Z
}.

(** Field updates. *)
Definition set_isEngineOn (v : bool) (c : t) : t :=
  mk (brand c) (model c) v (currentSpeed c) (currentGear c).

Definition set_currentSpeed (v : Z) (c : t) : t :=
  mk (brand c) (model c) (isEngineOn c) v (currentGear c).

Definition set_currentGear (v : Z) (c : t) : t :=
  mk (brand c) (model c) (isEngineOn c) (currentSpeed c) v.

(** The constructor, with the field initialisers. *)
Definition new (brand model : string) : t :=
  mk brand model false 0 0.

Definition startEngine : Method t unit :=
  assign (set_isEngineOn true) ;;
  this <- get ;;
  console_log (brand this ++ " " ++ model this
               ++ ": Engine start with a roar...").

Definition shiftGear : Method t unit :=
  this <- get ;;
  if negb (isEngineOn this) then
    console_log (brand this ++ " " ++ model this
                 ++ " : Engine is off! Cannot shift a gear.")
  else
    (if currentGear this =? 6
     then console_log "You cannot shift gear now"
     else ret tt) ;;
    assign (fun c => set_currentGear (Number.add (currentGear c) 1) c) ;;
    this <- get ;;
    console_log (brand this ++ " " ++ model this
                 ++ " : Shifted to gear " ++ number_toString (currentGear this)).

Definition accelerate : Method t unit :=
  this <- get ;;
  if negb (isEngineOn this) then
    console_log (brand this ++ " " ++ model this
                 ++ " : Engine is off! Cannot accelerate.")
  else
    assign (fun c => set_currentSpeed (Number.add (currentSpeed c) 20) c) ;;
    this <- get ;;
    console_log (brand this ++ " " ++ model this
                 ++ " : accelerating to gear "
                 ++ number_toString (currentSpeed this) ++ " km/h.").

Definition brake : Method t unit :=
  assign (fun c => set_currentSpeed (Number.sub (currentSpeed c) 20) c) ;;
  this <- get ;;
  (if currentSpeed this <? 0
   then assign (set_currentSpeed 0)
   else ret tt) ;;
  assign (fun c => set_currentGear (Number.sub (currentGear c) 1) c) ;;
  this <- get ;;
  console_log (brand this ++ " " ++ model this
               ++ " : Braking! Speed is now "
               ++ number_toString (currentSpeed this)
               ++ " km/h, and Gear lowered to "
               ++ number_toString (currentGear this)).

Definition stopEngine : Method t unit :=
  assign (set_isEngineOn false) ;;
  assign (set_currentGear 0) ;;
  assign (set_currentSpeed 0) ;;
  this <- get ;;
  console_log (brand this ++ " " ++ model this ++ " : Engine turned off.").

End SportsCar.

#[export] Instance SportsCar_Car : Car SportsCar.t := {|
  startEngine := SportsCar.startEngine;
  shiftGear := SportsCar.shiftGear;
  accelerate := SportsCar.accelerate;
  brake := SportsCar.brake;
  stopEngine := SportsCar.stopEngine
|}.

(** ** The driver at the end of the file *)

(** One call through the [Car] interface. *)
Inductive Call : Type :=
  | StartEngine
  | ShiftGear
  | Accelerate
  | Brake
  | StopEngine.

Definition invoke {T : Type} `{Car T} (c : Call) : Method T unit :=
  match c with
  | StartEngine => startEngine
  | ShiftGear => shiftGear
  | Accelerate => accelerate
  | Brake => brake
  | StopEngine => stopEngine
  end.

(** A sequence of calls on one object, one after the other. *)
Fixpoint script {T : Type} `{Car T} (cs : list Call) : Method T unit :=
  match cs with
  | [] => ret tt
  | c :: cs' => invoke c ;; script cs'
  end.

(** The object after each call of the sequence, in order. *)
Fixpoint trace {T : Type} `{Car T} (cs : list Call) (this : T) : list T :=
  match cs with
  | [] => []
  | c :: cs' =>
      let this' := exec (invoke c) this in
      this' :: trace cs' this'
  end.

(** [const myCar: Car = new SportsCar("Ford", "Mustang")]. *)
Definition myCar : SportsCar.t := SportsCar.new "Ford" "Mustang".

(** The calls [myCar.startEngine(); ... myCar.stopEngine();]. *)
Definition driver_calls : list Call :=
  [ StartEngine; ShiftGear; Accelerate; ShiftGear; Accelerate; Brake;
    ShiftGear; Accelerate; ShiftGear; Brake; StopEngine ].

Definition main : Method SportsCar.t unit :=
  console_log "--- Operating the Car (via the Car interface) ---" ;;
  script driver_calls.

(** What an observer of the object sees: engine, gear, speed. *)
Definition observe (c : SportsCar.t) : bool * Z * Z :=
  (SportsCar.isEngineOn c, SportsCar.currentGear c, SportsCar.currentSpeed c).

(** The speed [SportsCar.brake] leaves: the subtraction, then the test
    [if (this.currentSpeed < 0) this.currentSpeed = 0]. *)
Definition braked (speed : Z) : Z :=
  if Number.sub speed 20 <? 0 then 0 else Number.sub speed 20.

(** A state the class can hold: both numeric fields are numbers. *)
Definition valid (c : SportsCar.t) : bool :=
  Number.is_number (SportsCar.currentSpeed c)
  && Number.is_number (SportsCar.currentGear c).

(** ** Vocabulary for statements about runs *)

Definition Call_eqb (a b : Call) : bool :=
  match a, b with
  | StartEngine, StartEngine => true
  | ShiftGear, ShiftGear => true
  | Accelerate, Accelerate => true
  | Brake, Brake => true
  | StopEngine, StopEngine => true
  | _, _ => false
  end.

(** How many times the call [x] occurs in a sequence. *)
Definition count_calls (x : Call) (cs : list Call) : Z :=
  Z.of_nat (length (filter (Call_eqb x) cs)).

(** The line [SportsCar.shiftGear] logs when it finds the gear at 6; its
    text is fixed, with no brand or model put in. *)
Definition advisory : string := "You cannot shift gear now".

(** A line that starts with the vehicle's brand, a space and its model,
    as every template string of the class does. *)
Definition names_vehicle (c : SportsCar.t) (line : string) : bool :=
  String.prefix (SportsCar.brand c ++ " " ++ SportsCar.model c) line.

(** The lines one call logs: two when [shiftGear] finds the engine on
    and the gear at 6, one otherwise. *)
Definition lines_of (call : Call) (c : SportsCar.t) : nat :=
  match call with
  | ShiftGear =>
      if SportsCar.isEngineOn c && (SportsCar.currentGear c =? 6)
      then 2%nat else 1%nat
  | _ => 1%nat
  end.

(** * Properties *)

(** ** Rounding to a number *)

Section NumberFacts.
Import Number.

Lemma round_mag_small (a : Z) : a <= 2 ^ 53 -> round_mag a = a.
Proof.
  intros H. unfold round_mag.
  destruct (Z.leb_spec a (2 ^ 53)); [reflexivity | lia].
Qed.

(** The shape of [round_mag] above 2^53: the two neighbours [q * u] and
    [(q + 1) * u] on the grid of step [u]. *)
Lemma round_mag_large (a : Z) :
  2 ^ 53 < a ->
  exists u q r,
    u = 2 ^ (Z.log2 a - 52) /\ 2 <= u /\
    a = q * u + r /\ 0 <= r < u /\
    2 ^ 52 <= q < 2 ^ 53 /\
    2 ^ Z.log2 a = 2 ^ 52 * u /\
    round_mag a
    = if 2 * r <? u then q * u
      else if u <? 2 * r then (q + 1) * u
      else if Z.even q then q * u
      else (q + 1) * u.
Proof.
  intros Ha.
  assert (Hpos : 0 < a) by lia.
  destruct (Z.log2_spec a Hpos) as [Hlo Hhi].
  assert (Hl : 53 <= Z.log2 a).
  { apply Z.log2_le_pow2; lia. }
  set (e := Z.log2 a - 52).
  assert (He : 1 <= e) by (unfold e; lia).
  assert (Hu : 2 ^ Z.log2 a = 2 ^ 52 * 2 ^ e).
  { rewrite <- Z.pow_add_r by lia. f_equal. unfold e. lia. }
  assert (Hu2 : 2 <= 2 ^ e).
  { change 2 with (2 ^ 1) at 1. apply Z.pow_le_mono_r; lia. }
  exists (2 ^ e), (a / 2 ^ e), (a mod 2 ^ e).
  assert (Hdm : a = a / 2 ^ e * 2 ^ e + a mod 2 ^ e).
  { rewrite Z.mul_comm. apply Z.div_mod. lia. }
  assert (Hr : 0 <= a mod 2 ^ e < 2 ^ e) by (apply Z.mod_pos_bound; lia).
  assert (Hsucc : 2 ^ Z.succ (Z.log2 a) = 2 ^ 53 * 2 ^ e).
  { rewrite Z.pow_succ_r by lia. rewrite Hu. lia. }
  repeat split; try assumption; try lia.
  - (* 2^52 <= q *)
    apply Z.div_le_lower_bound; lia.
  - apply Z.div_lt_upper_bound; lia.
  - unfold round_mag. destruct (Z.leb_spec a (2 ^ 53)); [lia | reflexivity].
Qed.

Lemma round_mag_nonneg (a : Z) : 0 <= a -> 0 <= round_mag a.
Proof.
  intros Ha. destruct (Z.le_gt_cases a (2 ^ 53)) as [Hs | Hl].
  - now rewrite round_mag_small.
  - destruct (round_mag_large a Hl)
      as (u & q & r & _ & Hu & _ & _ & Hq & _ & ->).
    destruct (2 * r <? u); [nia |].
    destruct (u <? 2 * r); [nia |].
    destruct (Z.even q); nia.
Qed.

Lemma round_mag_pos (a : Z) : 0 < a -> 0 < round_mag a.
Proof.
  intros Ha. destruct (Z.le_gt_cases a (2 ^ 53)) as [Hs | Hl].
  - now rewrite round_mag_small.
  - destruct (round_mag_large a Hl)
      as (u & q & r & _ & Hu & _ & _ & Hq & _ & ->).
    destruct (2 * r <? u); [nia |].
    destruct (u <? 2 * r); [nia |].
    destruct (Z.even q); nia.
Qed.

(** Above 2^53 the rounded value stays between the two powers of two
    that enclose the argument. *)
Lemma round_mag_binade (a : Z) :
  2 ^ 53 < a ->
  2 ^ Z.log2 a <= round_mag a <= 2 ^ (Z.log2 a + 1).
Proof.
  intros Hl.
  destruct (round_mag_large a Hl)
    as (u & q & r & _ & Hu & _ & _ & Hq & Hpow & ->).
  assert (Hpow' : 2 ^ (Z.log2 a + 1) = 2 ^ 53 * u).
  { rewrite Z.pow_add_r by (try apply Z.log2_nonneg; lia).
    rewrite Hpow. lia. }
  rewrite Hpow, Hpow'.
  destruct (2 * r <? u); [nia |].
  destruct (u <? 2 * r); [nia |].
  destruct (Z.even q); nia.
Qed.

Lemma round_mag_mono (a b : Z) :
  0 <= a -> a <= b -> round_mag a <= round_mag b.
Proof.
  intros Ha Hab.
  destruct (Z.le_gt_cases b (2 ^ 53)) as [Hb | Hb].
  - rewrite !round_mag_small by lia. exact Hab.
  - destruct (Z.le_gt_cases a (2 ^ 53)) as [Has | Hal].
    + rewrite (round_mag_small a) by exact Has.
      pose proof (round_mag_binade b Hb) as [Hlo _].
      assert (2 ^ 53 <= 2 ^ Z.log2 b).
      { apply Z.pow_le_mono_r; [lia |]. apply Z.log2_le_pow2; lia. }
      lia.
    + assert (Hlog : Z.log2 a <= Z.log2 b) by (apply Z.log2_le_mono; exact Hab).
      destruct (Z.eq_dec (Z.log2 a) (Z.log2 b)) as [Heq | Hne].
      * destruct (round_mag_large a Hal)
          as (u & q & r & Hu & Hu2 & Hdm & Hr & Hq & _ & ->).
        destruct (round_mag_large b Hb)
          as (u' & q' & r' & Hu' & _ & Hdm' & Hr' & Hq' & _ & ->).
        rewrite Heq in Hu. rewrite <- Hu in Hu'. clear Hu. subst u'.
        assert (Hqq : q <= q').
        { destruct (Z.le_gt_cases q q') as [Hle | Hgt]; [exact Hle |].
          assert ((q' + 1) * u <= q * u)
            by (apply Z.mul_le_mono_nonneg_r; lia).
          lia. }
        destruct (Z.eq_dec q q') as [<- | Hqne].
        -- assert (r <= r') by lia.
           destruct (Z.ltb_spec (2 * r) u); destruct (Z.ltb_spec (2 * r') u);
             destruct (Z.ltb_spec u (2 * r)); destruct (Z.ltb_spec u (2 * r'));
             destruct (Z.even q); nia.
        -- assert ((q + 1) * u <= q' * u)
             by (apply Z.mul_le_mono_nonneg_r; lia).
           destruct (2 * r <? u); destruct (2 * r' <? u);
             destruct (u <? 2 * r); destruct (u <? 2 * r');
             destruct (Z.even q); destruct (Z.even q'); nia.
      * pose proof (round_mag_binade a Hal) as [_ Hhi].
        pose proof (round_mag_binade b Hb) as [Hlo _].
        assert (2 ^ (Z.log2 a + 1) <= 2 ^ Z.log2 b)
          by (apply Z.pow_le_mono_r; lia).
        lia.
Qed.

Lemma sgn_mul_abs (z : Z) : Z.sgn z * Z.abs z = z.
Proof. destruct z; reflexivity. Qed.

Lemma round_small (z : Z) : Z.abs z <= 2 ^ 53 -> round z = z.
Proof.
  intros H. unfold round. rewrite round_mag_small by exact H.
  apply sgn_mul_abs.
Qed.

Lemma round_nonneg (z : Z) : 0 <= z -> 0 <= round z.
Proof.
  intros H. unfold round.
  pose proof (round_mag_nonneg (Z.abs z) (Z.abs_nonneg z)).
  destruct z; cbn [Z.sgn] in *; lia.
Qed.

Lemma round_neg (z : Z) : z < 0 -> round z < 0.
Proof.
  intros H. unfold round.
  assert (0 < Z.abs z) by lia.
  pose proof (round_mag_pos (Z.abs z) ltac:(assumption)).
  destruct z; cbn [Z.sgn] in *; lia.
Qed.

Lemma round_mono (x y : Z) : x <= y -> round x <= round y.
Proof.
  intros Hxy.
  destruct (Z.lt_ge_cases x 0) as [Hx | Hx];
    destruct (Z.lt_ge_cases y 0) as [Hy | Hy].
  - unfold round. rewrite !Z.sgn_neg by assumption.
    assert (round_mag (Z.abs y) <= round_mag (Z.abs x))
      by (apply round_mag_mono; lia).
    lia.
  - pose proof (round_neg x Hx). pose proof (round_nonneg y Hy). lia.
  - lia.
  - destruct (Z.eq_dec x 0) as [-> | Hx0].
    + change (round 0) with 0. apply round_nonneg; assumption.
    + unfold round. rewrite !Z.sgn_pos by lia.
      rewrite !Z.abs_eq by lia. rewrite !Z.mul_1_l.
      apply round_mag_mono; lia.
Qed.

(** Multiples of 4 below 2^55 are exact. *)
Lemma round_exact4 (z : Z) : (4 | z) -> Z.abs z < 2 ^ 55 -> round z = z.
Proof.
  intros [k Hk] Hz.
  destruct (Z.le_gt_cases (Z.abs z) (2 ^ 53)) as [Hs | Hl].
  - apply round_small, Hs.
  - unfold round.
    destruct (round_mag_large (Z.abs z) Hl)
      as (u & q & r & Hu & _ & Hdm & Hr & _ & _ & Hrm).
    assert (Hlog : 53 <= Z.log2 (Z.abs z) < 55).
    { split; [apply Z.log2_le_pow2; lia | apply Z.log2_lt_pow2; lia]. }
    assert (Hdiv : (u | Z.abs z)).
    { assert (Hcase : Z.log2 (Z.abs z) = 53 \/ Z.log2 (Z.abs z) = 54) by lia.
      destruct Hcase as [E | E]; rewrite E in Hu; cbn in Hu; subst u.
      - exists (2 * Z.abs k). lia.
      - exists (Z.abs k). lia. }
    destruct Hdiv as [j Hj].
    assert (r = 0).
    { assert (q = j) by nia. subst q. lia. }
    subst r. rewrite Hrm.
    destruct (Z.ltb_spec (2 * 0) u); [| lia].
    rewrite Z.add_0_r in Hdm. rewrite <- Hdm. apply sgn_mul_abs.
Qed.

Lemma add_1_at_ceiling : add (2 ^ 53) 1 = 2 ^ 53.
Proof. vm_compute. reflexivity. Qed.

Lemma sub_1_at_floor : sub (- 2 ^ 53) 1 = - 2 ^ 53.
Proof. vm_compute. reflexivity. Qed.

Lemma add_20_inexact : add (2 ^ 55 - 8) 20 = 2 ^ 55 + 16.
Proof. vm_compute. reflexivity. Qed.

Lemma add_20_at_ceiling : add (2 ^ 58) 20 = 2 ^ 58.
Proof. vm_compute. reflexivity. Qed.
End NumberFacts.

(** ** What each method does, as one equation per path *)

Module SportsCarFacts.
Import SportsCar.

Lemma startEngine_eq (c : t) :
  SportsCar.startEngine c
  = (tt, set_isEngineOn true c,
     [(brand c ++ " " ++ model c ++ ": Engine start with a roar...")%string]).
Proof. reflexivity. Qed.

Lemma shiftGear_off_eq (c : t) :
  isEngineOn c = false ->
  SportsCar.shiftGear c
  = (tt, c, [(brand c ++ " " ++ model c
             ++ " : Engine is off! Cannot shift a gear.")%string]).
Proof.
  intros Hoff. unfold SportsCar.shiftGear, bind, get.
  rewrite Hoff. reflexivity.
Qed.

Lemma shiftGear_on_eq (c : t) :
  isEngineOn c = true ->
  SportsCar.shiftGear c
  = (tt, set_currentGear (Number.add (currentGear c) 1) c,
     (if currentGear c =? 6 then ["You cannot shift gear now"] else [])
     ++ [(brand c ++ " " ++ model c ++ " : Shifted to gear "
         ++ number_toString (Number.add (currentGear c) 1))%string]).
Proof.
  intros Hon. unfold SportsCar.shiftGear, bind, get.
  rewrite Hon. cbn [negb].
  destruct (currentGear c =? 6); reflexivity.
Qed.

Lemma accelerate_off_eq (c : t) :
  isEngineOn c = false ->
  SportsCar.accelerate c
  = (tt, c, [(brand c ++ " " ++ model c
             ++ " : Engine is off! Cannot accelerate.")%string]).
Proof.
  intros Hoff. unfold SportsCar.accelerate, bind, get.
  rewrite Hoff. reflexivity.
Qed.

Lemma accelerate_on_eq (c : t) :
  isEngineOn c = true ->
  SportsCar.accelerate c
  = (tt, set_currentSpeed (Number.add (currentSpeed c) 20) c,
     [(brand c ++ " " ++ model c ++ " : accelerating to gear "
      ++ number_toString (Number.add (currentSpeed c) 20) ++ " km/h.")%string]).
Proof.
  intros Hon. unfold SportsCar.accelerate, bind, get.
  rewrite Hon. reflexivity.
Qed.

Lemma brake_eq (c : t) :
  SportsCar.brake c
  = (tt,
     mk (brand c) (model c) (isEngineOn c)
        (braked (currentSpeed c)) (Number.sub (currentGear c) 1),
     [(brand c ++ " " ++ model c ++ " : Braking! Speed is now "
      ++ number_toString (braked (currentSpeed c))
      ++ " km/h, and Gear lowered to "
      ++ number_toString (Number.sub (currentGear c) 1))%string]).
Proof.
  unfold SportsCar.brake, bind, get, assign, braked.
  cbn [set_currentSpeed set_currentGear currentSpeed currentGear
       brand model isEngineOn].
  destruct (Number.sub (currentSpeed c) 20 <? 0); reflexivity.
Qed.

Lemma braked_max (speed : Z) :
  braked speed = Z.max 0 (Number.sub speed 20).
Proof. unfold braked. destruct (Z.ltb_spec (Number.sub speed 20) 0); lia. Qed.

Lemma stopEngine_eq (c : t) :
  SportsCar.stopEngine c
  = (tt, mk (brand c) (model c) false 0 0,
     [(brand c ++ " " ++ model c ++ " : Engine turned off.")%string]).
Proof. reflexivity. Qed.

(** The object after one call, by cases on the call and the engine. *)
Lemma exec_invoke (call : Call) (c : t) :
  exec (invoke call) c =
  match call with
  | StartEngine => set_isEngineOn true c
  | ShiftGear =>
      if isEngineOn c then set_currentGear (Number.add (currentGear c) 1) c else c
  | Accelerate =>
      if isEngineOn c then set_currentSpeed (Number.add (currentSpeed c) 20) c else c
  | Brake =>
      mk (brand c) (model c) (isEngineOn c)
         (braked (currentSpeed c)) (Number.sub (currentGear c) 1)
  | StopEngine => mk (brand c) (model c) false 0 0
  end.
Proof.
  unfold exec. destruct call; cbn [invoke startEngine shiftGear accelerate
                                   brake stopEngine SportsCar_Car].
  - rewrite startEngine_eq. reflexivity.
  - destruct (isEngineOn c) eqn:E.
    + rewrite shiftGear_on_eq by assumption. reflexivity.
    + rewrite shiftGear_off_eq by assumption. reflexivity.
  - destruct (isEngineOn c) eqn:E.
    + rewrite accelerate_on_eq by assumption. reflexivity.
    + rewrite accelerate_off_eq by assumption. reflexivity.
  - rewrite brake_eq. reflexivity.
  - rewrite stopEngine_eq. reflexivity.
Qed.

End SportsCarFacts.

(** ** Sequences of calls *)

Section Scripts.
Context {T : Type} `{Car T}.

Lemma exec_script_nil (this : T) : exec (script []) this = this.
Proof. reflexivity. Qed.

Lemma exec_script_cons (c : Call) (cs : list Call) (this : T) :
  exec (script (c :: cs)) this = exec (script cs) (exec (invoke c) this).
Proof.
  unfold exec. cbn [script]. unfold bind.
  destruct (invoke c this) as [[u this1] out1]. cbn [fst snd].
  destruct (script cs this1) as [[u' this2] out2]. reflexivity.
Qed.

(** A property of the object that every call keeps is kept by every
    sequence of calls. *)
Lemma script_preserves (P : T -> Prop) :
  (forall c this, P this -> P (exec (invoke c) this)) ->
  forall cs this, P this -> P (exec (script cs) this).
Proof.
  intros Hstep cs. induction cs as [|c cs IH]; intros this HP.
  - exact HP.
  - rewrite exec_script_cons. apply IH, Hstep, HP.
Qed.

(** Every entry of [trace] is the object after a prefix of the calls. *)
Lemma trace_nth_prefix (cs : list Call) :
  forall (this : T) (k : nat) (x : T),
    nth_error (trace cs this) k = Some x ->
    x = exec (script (firstn (S k) cs)) this.
Proof.
  induction cs as [|c cs IH]; intros this k x Hk.
  - destruct k; discriminate.
  - cbn [trace] in Hk. cbn [firstn]. rewrite exec_script_cons.
    destruct k as [|k].
    + cbn in Hk. injection Hk as <-. destruct cs; reflexivity.
    + cbn [nth_error] in Hk. apply IH, Hk.
Qed.

Lemma trace_length (cs : list Call) (this : T) :
  length (trace cs this) = length cs.
Proof.
  revert this. induction cs as [|c cs IH]; intros this; cbn [trace length].
  - reflexivity.
  - now rewrite IH.
Qed.
End Scripts.

Section ScriptsOutput.
Context {T : Type} `{Car T}.

Lemma output_script_cons (c : Call) (cs : list Call) (this : T) :
  output (script (c :: cs)) this
  = output (invoke c) this ++ output (script cs) (exec (invoke c) this).
Proof.
  unfold output, exec. cbn [script]. unfold bind.
  destruct (invoke c this) as [[u this1] out1]. cbn [fst snd].
  destruct (script cs this1) as [[u' this2] out2]. reflexivity.
Qed.

Lemma exec_script_app (cs1 cs2 : list Call) (this : T) :
  exec (script (cs1 ++ cs2)) this
  = exec (script cs2) (exec (script cs1) this).
Proof.
  revert this. induction cs1 as [|c cs1 IH]; intros this.
  - reflexivity.
  - cbn [app]. rewrite !exec_script_cons. apply IH.
Qed.

Lemma output_script_app (cs1 cs2 : list Call) (this : T) :
  output (script (cs1 ++ cs2)) this
  = output (script cs1) this ++ output (script cs2) (exec (script cs1) this).
Proof.
  revert this. induction cs1 as [|c cs1 IH]; intros this.
  - reflexivity.
  - cbn [app]. rewrite !output_script_cons, exec_script_cons, IH.
    now rewrite app_assoc.
Qed.
End ScriptsOutput.


(** ** Arithmetic of the two fields *)

Section FieldArithmetic.
Import Number.

Lemma add_exact (x y : Z) : Z.abs (x + y) <= 2 ^ 53 -> add x y = x + y.
Proof. apply round_small. Qed.

Lemma sub_exact (x y : Z) : Z.abs (x - y) <= 2 ^ 53 -> sub x y = x - y.
Proof. apply round_small. Qed.

(** The gear, one up: exact below 2^53, unchanged at 2^53. *)
Lemma gear_up (g : Z) :
  - 2 ^ 53 <= g <= 2 ^ 53 ->
  add g 1 = Z.min (g + 1) (2 ^ 53).
Proof.
  intros Hg. destruct (Z.eq_dec g (2 ^ 53)) as [-> | Hne].
  - rewrite add_1_at_ceiling. reflexivity.
  - rewrite add_exact by lia. lia.
Qed.

(** The gear, one down: exact above -2^53, unchanged at -2^53. *)
Lemma gear_down (g : Z) :
  - 2 ^ 53 <= g <= 2 ^ 53 ->
  sub g 1 = Z.max (g - 1) (- 2 ^ 53).
Proof.
  intros Hg. destruct (Z.eq_dec g (- 2 ^ 53)) as [-> | Hne].
  - rewrite sub_1_at_floor. reflexivity.
  - rewrite sub_exact by lia. lia.
Qed.

(** The speed, 20 up: exact on multiples of 20 while below 2^55. *)
Lemma speed_up (s : Z) :
  (20 | s) -> 0 <= s -> s + 20 < 2 ^ 55 -> add s 20 = s + 20.
Proof.
  intros [j Hj] Hs Hlt. apply round_exact4.
  - exists (5 * j + 5). lia.
  - lia.
Qed.

(** The speed, 20 down: exact on multiples of 20 below 2^55. *)
Lemma speed_down (s : Z) :
  (20 | s) -> 0 <= s < 2 ^ 55 -> sub s 20 = s - 20.
Proof.
  intros [j Hj] Hs. apply round_exact4.
  - exists (5 * j - 5). lia.
  - lia.
Qed.

(** A difference that is negative stays negative when rounded, so the
    test of [brake] sees it. *)
Lemma braked_exact (s : Z) :
  s <= 2 ^ 53 -> braked s = Z.max 0 (s - 20).
Proof.
  intros Hs. unfold braked.
  destruct (Z.lt_ge_cases (s - 20) 0) as [Hneg | Hpos].
  - pose proof (round_neg (s - 20) Hneg) as Hr. fold (sub s 20) in Hr.
    destruct (Z.ltb_spec (sub s 20) 0); lia.
  - rewrite sub_exact by lia.
    destruct (Z.ltb_spec (s - 20) 0); lia.
Qed.

Lemma braked_nonneg (s : Z) : 0 <= braked s.
Proof. unfold braked. destruct (Z.ltb_spec (sub s 20) 0); lia. Qed.

Lemma braked_le (s bound : Z) :
  round bound = bound -> 0 <= bound -> s <= bound -> braked s <= bound.
Proof.
  intros Hb H0 Hs. unfold braked.
  destruct (Z.ltb_spec (sub s 20) 0); [exact H0 |].
  unfold sub. rewrite <- Hb. apply round_mono. lia.
Qed.

Lemma is_number_round (z : Z) : is_number z = true -> round z = z.
Proof.
  unfold is_number. intros H. apply andb_true_iff in H. destruct H as [H _].
  now apply Z.eqb_eq.
Qed.
End FieldArithmetic.

Lemma count_calls_cons (x call : Call) (cs : list Call) :
  count_calls x (call :: cs) = count_calls x [call] + count_calls x cs.
Proof.
  unfold count_calls. cbn [filter].
  destruct (Call_eqb x call); cbn [length]; lia.
Qed.

Lemma count_calls_nonneg (x : Call) (cs : list Call) : 0 <= count_calls x cs.
Proof. unfold count_calls. lia. Qed.

Lemma count_calls_firstn (x : Call) (k : nat) (cs : list Call) :
  count_calls x (firstn k cs) <= count_calls x cs.
Proof.
  revert k. induction cs as [|call cs IH]; intros k.
  - rewrite firstn_nil. lia.
  - destruct k as [|k].
    + cbn [firstn]. pose proof (count_calls_nonneg x (call :: cs)).
      unfold count_calls at 1. cbn [filter length Z.of_nat]. lia.
    + cbn [firstn]. rewrite (count_calls_cons x call (firstn k cs)),
        (count_calls_cons x call cs).
      specialize (IH k). lia.
Qed.

(** ** Numbers above 2^53 lie on a grid *)

Section NumberGrid.
Import Number.

(** A number above 2^53 is a multiple of its step. *)
Lemma number_on_grid (z : Z) :
  2 ^ 53 < z -> round z = z -> (2 ^ (Z.log2 z - 52) | z).
Proof.
  intros Hz Hr. unfold round in Hr.
  rewrite Z.sgn_pos, Z.abs_eq, Z.mul_1_l in Hr by lia.
  destruct (round_mag_large z Hz)
    as (u & q & r & Hu & _ & _ & _ & _ & _ & Hrm).
  rewrite Hr in Hrm. rewrite <- Hu.
  destruct (2 * r <? u); [exists q; exact Hrm |].
  destruct (u <? 2 * r); [exists (q + 1); exact Hrm |].
  destruct (Z.even q); [exists q | exists (q + 1)]; exact Hrm.
Qed.

(** An integer above 2^53 that is a multiple of its step is a number. *)
Lemma grid_exact (a : Z) :
  2 ^ 53 < a -> (2 ^ (Z.log2 a - 52) | a) -> round a = a.
Proof.
  intros Ha [j Hj]. unfold round.
  rewrite Z.sgn_pos, Z.abs_eq, Z.mul_1_l by lia.
  destruct (round_mag_large a Ha)
    as (u & q & r & Hu & Hu2 & Hdm & Hr & _ & _ & Hrm).
  rewrite <- Hu in Hj.
  assert (r = 0).
  { assert (q = j) by nia. subst q. lia. }
  subst r. rewrite Hrm.
  destruct (Z.ltb_spec (2 * 0) u); lia.
Qed.

(** 20 down from a number of at most 2^55 is exact, or negative. *)
Lemma braked_exact_number (s : Z) :
  round s = s -> s <= 2 ^ 55 -> braked s = Z.max 0 (s - 20).
Proof.
  intros Hnum Hs.
  destruct (Z.le_gt_cases s (2 ^ 53)) as [Hsmall | Hlarge].
  - apply braked_exact, Hsmall.
  - assert (Hexact : sub s 20 = s - 20).
    { unfold sub.
      destruct (Z.le_gt_cases (s - 20) (2 ^ 53)) as [Hd | Hd].
      - apply round_small. lia.
      - apply grid_exact; [exact Hd |].
        pose proof (number_on_grid s Hlarge Hnum) as Hgrid.
        assert (Hls : 53 <= Z.log2 s <= 55).
        { split; [apply Z.log2_le_pow2; lia |].
          change 55 with (Z.log2 (2 ^ 55)). apply Z.log2_le_mono. lia. }
        assert (Hld : 53 <= Z.log2 (s - 20) < 55).
        { split; [apply Z.log2_le_pow2; lia | apply Z.log2_lt_pow2; lia]. }
        assert (Hmono : Z.log2 (s - 20) <= Z.log2 s)
          by (apply Z.log2_le_mono; lia).
        assert (Hstep : (2 ^ (Z.log2 (s - 20) - 52) | 2 ^ (Z.log2 s - 52))).
        { exists (2 ^ (Z.log2 s - Z.log2 (s - 20))).
          rewrite <- Z.pow_add_r by lia. f_equal. lia. }
        apply Z.divide_sub_r.
        + exact (Z.divide_trans _ _ _ Hstep Hgrid).
        + assert (Hcase : Z.log2 (s - 20) = 53 \/ Z.log2 (s - 20) = 54) by lia.
          destruct Hcase as [-> | ->].
          * exists 10. reflexivity.
          * exists 5. reflexivity. }
    unfold braked. rewrite Hexact.
    destruct (Z.ltb_spec (s - 20) 0); lia.
Qed.
End NumberGrid.

(** ** Rounding yields numbers *)

Section NumberClosure.
Import Number.

Lemma round_mag_on_grid (a : Z) :
  2 ^ 53 < a -> (2 ^ (Z.log2 a - 52) | a) -> round_mag a = a.
Proof.
  intros Ha Hdiv. pose proof (grid_exact a Ha Hdiv) as H.
  unfold round in H. now rewrite Z.sgn_pos, Z.abs_eq, Z.mul_1_l in H by lia.
Qed.

Lemma round_mag_idem (a : Z) : 0 <= a -> round_mag (round_mag a) = round_mag a.
Proof.
  intros Ha0. destruct (Z.le_gt_cases a (2 ^ 53)) as [Hs | Hl].
  - rewrite (round_mag_small a Hs). exact (round_mag_small a Hs).
  - destruct (round_mag_large a Hl)
      as (u & q & r & Hu & Hu2 & Hdm & Hr & Hq & Hpow & Hrm).
    pose proof (round_mag_binade a Hl) as [Hlo Hhi].
    assert (Hlog : 53 <= Z.log2 a) by (apply Z.log2_le_pow2; lia).
    assert (Hgrid : (u | round_mag a)).
    { rewrite Hrm. destruct (2 * r <? u); [exists q; reflexivity |].
      destruct (u <? 2 * r); [exists (q + 1); reflexivity |].
      destruct (Z.even q); [exists q | exists (q + 1)]; reflexivity. }
    assert (Hpow' : 2 ^ (Z.log2 a + 1) = 2 * 2 ^ Z.log2 a).
    { rewrite Z.pow_add_r by lia. lia. }
    destruct (Z.eq_dec (round_mag a) (2 ^ (Z.log2 a + 1))) as [Htop | Hin].
    + (* rounded up to the next power of two *)
      rewrite Htop. apply round_mag_on_grid.
      * assert (2 ^ 53 <= 2 ^ Z.log2 a) by (apply Z.pow_le_mono_r; lia). lia.
      * rewrite Z.log2_pow2 by lia.
        exists (2 ^ 52). rewrite <- Z.pow_add_r by lia. f_equal. lia.
    + assert (Hsame : Z.log2 (round_mag a) = Z.log2 a).
      { apply Z.log2_unique; [lia |]. rewrite <- Z.add_1_r. lia. }
      destruct (Z.le_gt_cases (round_mag a) (2 ^ 53)) as [Hs | Hl'].
      * now apply round_mag_small.
      * apply round_mag_on_grid; [exact Hl' |].
        rewrite Hsame, <- Hu. exact Hgrid.
Qed.

Lemma round_idem (z : Z) : round (round z) = round z.
Proof.
  unfold round at 2 3.
  destruct z as [|p|p]; cbn [Z.sgn Z.abs].
  - reflexivity.
  - rewrite Z.mul_1_l. unfold round.
    pose proof (round_mag_pos (Z.pos p) ltac:(lia)).
    rewrite Z.sgn_pos, Z.abs_eq, Z.mul_1_l by lia.
    apply round_mag_idem. lia.
  - unfold round.
    pose proof (round_mag_pos (Z.pos p) ltac:(lia)).
    rewrite Z.sgn_neg by lia.
    replace (Z.abs (-1 * round_mag (Z.pos p))) with (round_mag (Z.pos p)) by lia.
    rewrite round_mag_idem by lia. reflexivity.
Qed.

(** The largest number and what lies 20 beyond it. *)
Lemma round_above_max : round (max_value + 20) = max_value.
Proof. vm_compute. reflexivity. Qed.

Lemma round_below_min : round (- max_value - 20) = - max_value.
Proof. vm_compute. reflexivity. Qed.

Lemma is_number_spec (z : Z) :
  is_number z = true <-> round z = z /\ Z.abs z <= max_value.
Proof.
  unfold is_number. rewrite andb_true_iff, Z.eqb_eq, Z.leb_le. reflexivity.
Qed.

(** One or twenty up or down from a number is again a number. *)
Lemma is_number_step (z d : Z) :
  - 20 <= d <= 20 -> is_number z = true -> is_number (round (z + d)) = true.
Proof.
  intros Hd Hz. apply is_number_spec in Hz. destruct Hz as [_ Hz].
  apply is_number_spec. split; [apply round_idem |].
  assert (round (z + d) <= max_value)
    by (rewrite <- round_above_max; apply round_mono; lia).
  assert (- max_value <= round (z + d))
    by (rewrite <- round_below_min; apply round_mono; lia).
  lia.
Qed.
End NumberClosure.

(** ** Runs from a fresh vehicle *)

Section Runs.
Import SportsCar SportsCarFacts.

(** One call keeps the speed non-negative. *)
Lemma invoke_speed_nonneg (call : Call) (c : t) :
  0 <= currentSpeed c -> 0 <= currentSpeed (exec (invoke call) c).
Proof.
  intros Hc. rewrite exec_invoke.
  destruct call; try destruct (isEngineOn c);
    cbn [currentSpeed currentGear set_isEngineOn set_currentSpeed
         set_currentGear]; try lia.
  all: first [ apply braked_nonneg
             | unfold Number.add; apply round_nonneg; lia ].
Qed.

(** One call, with the calls made so far counted: [a] of [accelerate],
    [s] of [shiftGear], [k] of [brake].  While 20 times the count of
    [accelerate] stays below 2^55 the speed is an exact multiple of 20;
    the gear stays within the counts whatever they are, since it stops
    moving at 2^53 and at -2^53. *)
Lemma invoke_counts (call : Call) (c : t) (a s k : Z) :
  0 <= a -> 0 <= s -> 0 <= k ->
  20 * (a + count_calls Accelerate [call]) < 2 ^ 55 ->
  0 <= currentSpeed c <= 20 * a ->
  (20 | currentSpeed c) ->
  - k <= currentGear c <= s ->
  - 2 ^ 53 <= currentGear c <= 2 ^ 53 ->
  (0 <= currentSpeed (exec (invoke call) c)
     <= 20 * (a + count_calls Accelerate [call])) /\
  (20 | currentSpeed (exec (invoke call) c)) /\
  (- (k + count_calls Brake [call])
     <= currentGear (exec (invoke call) c)
     <= s + count_calls ShiftGear [call]) /\
  - 2 ^ 53 <= currentGear (exec (invoke call) c) <= 2 ^ 53.
Proof.
  intros Ha Hs0 Hk Hlim Hs Hdiv Hg Hg53. rewrite exec_invoke.
  unfold count_calls in *.
  destruct call; cbn [filter Call_eqb length Z.of_nat] in *.
  - (* startEngine *)
    cbn [currentSpeed currentGear set_isEngineOn].
    repeat split; try assumption; lia.
  - (* shiftGear *)
    destruct (isEngineOn c); cbn [currentSpeed currentGear set_currentGear].
    + rewrite gear_up by assumption. repeat split; try assumption; lia.
    + repeat split; try assumption; lia.
  - (* accelerate *)
    destruct (isEngineOn c); cbn [currentSpeed currentGear set_currentSpeed].
    + rewrite speed_up by (try assumption; lia).
      repeat split; try assumption; try lia.
      apply Z.divide_add_r; [assumption | apply Z.divide_refl].
    + repeat split; try assumption; lia.
  - (* brake *)
    cbn [currentSpeed currentGear].
    rewrite gear_down by assumption. rewrite braked_max.
    rewrite speed_down by (try assumption; lia).
    repeat split; try lia.
    destruct (Z.max_spec 0 (currentSpeed c - 20)) as [[_ ->] | [_ ->]].
    + apply Z.divide_sub_r; [assumption | apply Z.divide_refl].
    + apply Z.divide_0_r.
  - (* stopEngine *)
    cbn [currentSpeed currentGear].
    repeat split; try lia. apply Z.divide_0_r.
Qed.

Lemma script_counts (cs : list Call) :
  forall (c : t) (a s k : Z),
    0 <= a -> 0 <= s -> 0 <= k ->
    20 * (a + count_calls Accelerate cs) < 2 ^ 55 ->
    0 <= currentSpeed c <= 20 * a ->
    (20 | currentSpeed c) ->
    - k <= currentGear c <= s ->
    - 2 ^ 53 <= currentGear c <= 2 ^ 53 ->
    (0 <= currentSpeed (exec (script cs) c)
       <= 20 * (a + count_calls Accelerate cs)) /\
    (20 | currentSpeed (exec (script cs) c)) /\
    (- (k + count_calls Brake cs)
       <= currentGear (exec (script cs) c)
       <= s + count_calls ShiftGear cs) /\
    - 2 ^ 53 <= currentGear (exec (script cs) c) <= 2 ^ 53.
Proof.
  induction cs as [|call cs IH]; intros c a s k Ha Hs0 Hk Hlim Hs Hdiv Hg Hg53.
  - rewrite exec_script_nil. unfold count_calls in *.
    cbn [filter length Z.of_nat] in *. rewrite !Z.add_0_r.
    repeat split; try assumption; lia.
  - rewrite exec_script_cons.
    rewrite (count_calls_cons Accelerate), (count_calls_cons Brake),
      (count_calls_cons ShiftGear), !Z.add_assoc in *.
    pose proof (count_calls_nonneg Accelerate [call]).
    pose proof (count_calls_nonneg Brake [call]).
    pose proof (count_calls_nonneg ShiftGear [call]).
    pose proof (count_calls_nonneg Accelerate cs).
    destruct (invoke_counts call c a s k) as (Hs' & Hdiv' & Hg' & Hg53');
      try assumption; try lia.
    apply IH; try assumption; lia.
Qed.

(** [n] calls of [accelerate] in a row, as long as the sums are exact. *)
Lemma accelerate_exact_run (n : nat) :
  forall c : t,
    isEngineOn c = true ->
    0 <= currentSpeed c ->
    (20 | currentSpeed c) ->
    currentSpeed c + 20 * Z.of_nat n < 2 ^ 55 ->
    exec (script (repeat Accelerate n)) c
    = set_currentSpeed (currentSpeed c + 20 * Z.of_nat n) c.
Proof.
  induction n as [|n IH]; intros c Hon Hs Hdiv Hlim.
  - cbn [repeat]. rewrite exec_script_nil. destruct c as [b m on s g].
    unfold set_currentSpeed.
    cbn [currentGear brand model isEngineOn currentSpeed Z.of_nat].
    now rewrite Z.mul_0_r, Z.add_0_r.
  - cbn [repeat]. rewrite exec_script_cons, exec_invoke, Hon.
    rewrite speed_up by (try assumption; lia).
    rewrite IH.
    + unfold set_currentSpeed.
      cbn [currentGear brand model isEngineOn currentSpeed].
      f_equal. lia.
    + exact Hon.
    + cbn [currentSpeed set_currentSpeed]. lia.
    + cbn [currentSpeed set_currentSpeed].
      apply Z.divide_add_r; [assumption | apply Z.divide_refl].
    + cbn [currentSpeed set_currentSpeed]. lia.
Qed.

(** The first sum that is not exact: [startEngine] and then [N] calls of
    [accelerate], where [20 * N] is [2^55 + 12]. *)
Lemma long_run_speed (N : Z) (b m : string) :
  20 * N = 2 ^ 55 + 12 ->
  exec (script (StartEngine :: repeat Accelerate (Z.to_nat N))) (new b m)
  = mk b m true (2 ^ 55 + 16) 0.
Proof.
  intros HN.
  replace (Z.to_nat N) with (Z.to_nat (N - 1) + 1)%nat by lia.
  rewrite repeat_app, exec_script_cons, exec_script_app, exec_invoke.
  rewrite (accelerate_exact_run (Z.to_nat (N - 1))).
  - change (repeat Accelerate 1) with [Accelerate].
    rewrite exec_script_cons, exec_script_nil, exec_invoke.
    cbn [isEngineOn set_isEngineOn set_currentSpeed new currentSpeed
         currentGear brand model].
    rewrite Z2Nat.id by lia.
    replace (0 + 20 * (N - 1)) with (2 ^ 55 - 8) by lia.
    rewrite add_20_inexact. reflexivity.
  - reflexivity.
  - cbn [currentSpeed set_isEngineOn new]. lia.
  - cbn [currentSpeed set_isEngineOn new]. apply Z.divide_0_r.
  - cbn [currentSpeed set_isEngineOn new]. rewrite Z2Nat.id by lia. lia.
Qed.

(** ** The claims *)

(** C1. Whatever sequence of [startEngine], [shiftGear], [accelerate],
    [brake] and [stopEngine] calls is applied to a freshly constructed
    vehicle, the speed is not negative after any prefix of it
    ([firstn k cs] is the prefix of the first [k] calls). *)
Theorem speed_never_negative (b m : string) (cs : list Call) (k : nat) :
  0 <= currentSpeed (exec (script (firstn k cs)) (new b m)).
Proof.
  apply (script_preserves (fun c => 0 <= currentSpeed c)).
  - intros call c. apply invoke_speed_nonneg.
  - cbn. lia.
Qed.

(** C2. With the engine running and the gear at 6, [shiftGear] logs the
    advisory "You cannot shift gear now" and still adds one to the
    gear, which becomes 7; nothing else in the object changes, and the
    usual "Shifted to gear 7" line follows the advisory. *)
Theorem shiftGear_at_six (c : t) :
  isEngineOn c = true ->
  currentGear c = 6 ->
  SportsCar.shiftGear c
  = (tt, set_currentGear 7 c,
     [ "You cannot shift gear now";
       (brand c ++ " " ++ model c ++ " : Shifted to gear 7")%string ]).
Proof.
  intros Hon Hsix. rewrite shiftGear_on_eq by assumption.
  rewrite Hsix. reflexivity.
Qed.

Lemma shiftGear_at_six_witness :
  isEngineOn (mk "Ford" "Mustang" true 40 6) = true /\
  currentGear (mk "Ford" "Mustang" true 40 6) = 6 /\
  SportsCar.shiftGear (mk "Ford" "Mustang" true 40 6)
  = (tt, mk "Ford" "Mustang" true 40 7,
     [ "You cannot shift gear now"; "Ford Mustang : Shifted to gear 7" ]).
Proof.
  split; [reflexivity | split; [reflexivity |]].
  exact (shiftGear_at_six (mk "Ford" "Mustang" true 40 6) eq_refl eq_refl).
Defined.

(** C3. With the engine off, [accelerate] and [shiftGear] each leave
    the whole object as it was (gear, speed, engine flag, brand and
    model) and log exactly one line, the "Engine is off!" message of
    that method. *)
Theorem engine_off_no_change (c : t) :
  isEngineOn c = false ->
  SportsCar.accelerate c
  = (tt, c, [(brand c ++ " " ++ model c
              ++ " : Engine is off! Cannot accelerate.")%string])
  /\
  SportsCar.shiftGear c
  = (tt, c, [(brand c ++ " " ++ model c
              ++ " : Engine is off! Cannot shift a gear.")%string]).
Proof.
  intros Hoff. split.
  - apply accelerate_off_eq, Hoff.
  - apply shiftGear_off_eq, Hoff.
Qed.

Lemma engine_off_no_change_witness :
  isEngineOn (mk "Ford" "Mustang" false 40 3) = false /\
  SportsCar.accelerate (mk "Ford" "Mustang" false 40 3)
  = (tt, mk "Ford" "Mustang" false 40 3,
     ["Ford Mustang : Engine is off! Cannot accelerate."]) /\
  SportsCar.shiftGear (mk "Ford" "Mustang" false 40 3)
  = (tt, mk "Ford" "Mustang" false 40 3,
     ["Ford Mustang : Engine is off! Cannot shift a gear."]).
Proof.
  split; [reflexivity |].
  exact (engine_off_no_change (mk "Ford" "Mustang" false 40 3) eq_refl).
Defined.

(** C4. From any state (any gear, any speed, engine on or off),
    [stopEngine] leaves the engine off, the gear at 0 and the speed
    at 0. *)
Theorem stopEngine_resets (c : t) :
  isEngineOn (exec SportsCar.stopEngine c) = false /\
  currentGear (exec SportsCar.stopEngine c) = 0 /\
  currentSpeed (exec SportsCar.stopEngine c) = 0.
Proof. repeat split. Qed.

(** C5, as the source has it. [brake] does not look at the engine: in
    every state the class can hold whose speed is at most 2^55 and whose
    gear is above -2^53 and at most 2^53, engine on or off, the speed
    becomes the larger of 0 and the speed minus 20, the gear goes down
    by one with no lower clamp, and the engine flag is untouched; the
    one line logged is the braking message (spelled out for a speed of
    at most 2^53).  The gear can therefore become negative: from a gear
    of 0 or less it does. *)
Theorem brake_in_exact_range (c : t) :
  valid c = true ->
  currentSpeed c <= 2 ^ 55 ->
  - 2 ^ 53 < currentGear c <= 2 ^ 53 ->
  currentSpeed (exec SportsCar.brake c) = Z.max 0 (currentSpeed c - 20) /\
  currentGear (exec SportsCar.brake c) = currentGear c - 1 /\
  isEngineOn (exec SportsCar.brake c) = isEngineOn c /\
  length (output SportsCar.brake c) = 1%nat /\
  (currentSpeed c <= 2 ^ 53 ->
   output SportsCar.brake c
   = [(brand c ++ " " ++ model c ++ " : Braking! Speed is now "
       ++ number_toString (Z.max 0 (currentSpeed c - 20))
       ++ " km/h, and Gear lowered to "
       ++ number_toString (currentGear c - 1))%string]) /\
  (currentGear c <= 0 -> currentGear (exec SportsCar.brake c) < 0).
Proof.
  intros Hvalid Hs Hg. unfold exec, output.
  unfold valid in Hvalid. apply andb_true_iff in Hvalid.
  destruct Hvalid as [Hvs _]. apply is_number_round in Hvs.
  rewrite brake_eq, braked_exact_number by assumption.
  rewrite sub_exact by lia.
  cbn [fst snd currentSpeed currentGear isEngineOn length].
  repeat split. lia.
Qed.

Lemma brake_in_exact_range_witness :
  valid (new "Ford" "Mustang") = true /\
  currentSpeed (new "Ford" "Mustang") <= 2 ^ 55 /\
  - 2 ^ 53 < currentGear (new "Ford" "Mustang") <= 2 ^ 53 /\
  currentSpeed (exec SportsCar.brake (new "Ford" "Mustang")) = 0 /\
  currentGear (exec SportsCar.brake (new "Ford" "Mustang")) = -1 /\
  isEngineOn (exec SportsCar.brake (new "Ford" "Mustang")) = false /\
  length (output SportsCar.brake (new "Ford" "Mustang")) = 1%nat /\
  (currentSpeed (new "Ford" "Mustang") <= 2 ^ 53 ->
   output SportsCar.brake (new "Ford" "Mustang")
   = ["Ford Mustang : Braking! Speed is now 0 km/h, and Gear lowered to -1"])
  /\
  (currentGear (new "Ford" "Mustang") <= 0 ->
   currentGear (exec SportsCar.brake (new "Ford" "Mustang")) < 0).
Proof.
  split; [vm_compute; reflexivity |].
  split; [cbn; lia |]. split; [cbn; lia |].
  apply (brake_in_exact_range (new "Ford" "Mustang")).
  - vm_compute; reflexivity.
  - cbn; lia.
  - cbn; lia.
Defined.

(** C5, as the specification words it: in every state [brake] would
    lower the gear by one.  At gear -2^53, where 2^53 calls of [brake]
    take a fresh vehicle, the difference is rounded back to -2^53 and
    the gear stays where it is. *)
Lemma brake_at_gear_floor :
  valid (mk "Ford" "Mustang" false 0 (- 2 ^ 53)) = true /\
  currentGear (exec SportsCar.brake (mk "Ford" "Mustang" false 0 (- 2 ^ 53)))
  <> currentGear (mk "Ford" "Mustang" false 0 (- 2 ^ 53)) - 1.
Proof.
  split; [vm_compute; reflexivity |].
  unfold exec. rewrite brake_eq. cbn [fst snd currentGear].
  rewrite sub_1_at_floor. lia.
Qed.

(** C6. On a fresh vehicle the driver's calls [startEngine],
    [shiftGear], [accelerate], [shiftGear], [accelerate], [brake],
    [shiftGear], [accelerate], [shiftGear], [brake], [stopEngine] go
    through gear 1, speed 20, gear 2, speed 40, (speed 20, gear 1),
    gear 2, speed 40, gear 3, (speed 20, gear 2), and end with the
    engine off, gear 0 and speed 0.  Each entry below is
    (engine, gear, speed) after the corresponding call. *)
Theorem driver_scenario (b m : string) :
  driver_calls
  = [ StartEngine; ShiftGear; Accelerate; ShiftGear; Accelerate; Brake;
      ShiftGear; Accelerate; ShiftGear; Brake; StopEngine ]
  /\
  map observe (trace driver_calls (new b m))
  = [ (true, 0, 0);
      (true, 1, 0);
      (true, 1, 20);
      (true, 2, 20);
      (true, 2, 40);
      (true, 1, 20);
      (true, 2, 20);
      (true, 2, 40);
      (true, 3, 40);
      (true, 2, 20);
      (false, 0, 0) ]
  /\
  observe (exec (script driver_calls) (new b m)) = (false, 0, 0).
Proof. repeat split. Qed.

(** C7, as the source has it. The driver makes eleven calls, not nine,
    all on the one vehicle built with brand "Ford" and model
    "Mustang"; with the header line the program logs twelve lines. *)
Theorem driver_has_eleven_calls :
  length driver_calls = 11%nat /\
  brand myCar = "Ford" /\ model myCar = "Mustang" /\
  length (output main myCar) = 12%nat.
Proof. repeat split. Qed.

(** C7, as the specification words it: the driver would consist of
    exactly nine calls.  It does not. *)
Lemma driver_not_nine_calls : length driver_calls <> 9%nat.
Proof. cbn. discriminate. Qed.

(** C8. In every state [startEngine] turns the engine flag on and
    changes nothing else: gear, speed, brand and model are as before. *)
Theorem startEngine_frame (c : t) :
  isEngineOn (exec SportsCar.startEngine c) = true /\
  currentGear (exec SportsCar.startEngine c) = currentGear c /\
  currentSpeed (exec SportsCar.startEngine c) = currentSpeed c /\
  brand (exec SportsCar.startEngine c) = brand c /\
  model (exec SportsCar.startEngine c) = model c.
Proof. repeat split. Qed.

(** C9, as the source has it. Whatever sequence of calls is applied to a
    freshly constructed vehicle, as long as it holds fewer than
    1801439850948199 calls of [accelerate] (20 times their number is
    below 2^55), the speed after any prefix of it is a multiple of 20. *)
Theorem speed_multiple_of_20 (b m : string) (cs : list Call) (k : nat) :
  20 * count_calls Accelerate cs < 2 ^ 55 ->
  (20 | currentSpeed (exec (script (firstn k cs)) (new b m))).
Proof.
  intros Hlim.
  pose proof (count_calls_firstn Accelerate k cs) as Hk.
  destruct (script_counts (firstn k cs) (new b m) 0 0 0)
    as (_ & Hdiv & _); cbn [new currentSpeed currentGear]; try lia.
  - apply Z.divide_0_r.
  - exact Hdiv.
Qed.

Lemma speed_multiple_of_20_witness :
  20 * count_calls Accelerate driver_calls < 2 ^ 55 /\
  (20 | currentSpeed (exec (script (firstn 5 driver_calls))
                        (new "Ford" "Mustang"))).
Proof.
  split; [vm_compute; reflexivity |].
  apply (speed_multiple_of_20 "Ford" "Mustang" driver_calls 5).
  vm_compute. reflexivity.
Defined.

(** C9, as the specification words it: after every sequence the speed
    would be a multiple of 20.  After [startEngine] and 1801439850948199
    calls of [accelerate] the speed is 2^55 + 16 = 36028797018963984:
    the last sum, 2^55 + 12, lies halfway between two numbers and is
    rounded to the even one. *)
Lemma speed_not_multiple_of_20_after_long_run :
  ~ (20 | currentSpeed
            (exec (script (StartEngine
                           :: repeat Accelerate (Z.to_nat 1801439850948199)))
               (new "Ford" "Mustang"))).
Proof.
  rewrite (long_run_speed 1801439850948199 "Ford" "Mustang") by reflexivity.
  cbn [currentSpeed]. intros [j Hj]. lia.
Qed.

(** C10. [stopEngine] is idempotent on the object: calling it twice
    leaves the same state as calling it once. *)
Theorem stopEngine_idempotent (c : t) :
  exec SportsCar.stopEngine (exec SportsCar.stopEngine c)
  = exec SportsCar.stopEngine c.
Proof. reflexivity. Qed.

End Runs.

(** ** Further properties of the class *)

Section More.
Import SportsCar SportsCarFacts.

(** The lines one call logs, by cases on the call and the engine. *)
Lemma output_invoke (call : Call) (c : t) :
  output (invoke call) c =
  match call with
  | StartEngine =>
      [(brand c ++ " " ++ model c ++ ": Engine start with a roar...")%string]
  | ShiftGear =>
      if isEngineOn c then
        (if currentGear c =? 6 then [advisory] else [])
        ++ [(brand c ++ " " ++ model c ++ " : Shifted to gear "
             ++ number_toString (Number.add (currentGear c) 1))%string]
      else
        [(brand c ++ " " ++ model c
          ++ " : Engine is off! Cannot shift a gear.")%string]
  | Accelerate =>
      if isEngineOn c then
        [(brand c ++ " " ++ model c ++ " : accelerating to gear "
          ++ number_toString (Number.add (currentSpeed c) 20) ++ " km/h.")%string]
      else
        [(brand c ++ " " ++ model c
          ++ " : Engine is off! Cannot accelerate.")%string]
  | Brake =>
      [(brand c ++ " " ++ model c ++ " : Braking! Speed is now "
        ++ number_toString (braked (currentSpeed c))
        ++ " km/h, and Gear lowered to "
        ++ number_toString (Number.sub (currentGear c) 1))%string]
  | StopEngine =>
      [(brand c ++ " " ++ model c ++ " : Engine turned off.")%string]
  end.
Proof.
  unfold output. destruct call; cbn [invoke startEngine shiftGear accelerate
                                     brake stopEngine SportsCar_Car].
  - rewrite startEngine_eq. reflexivity.
  - destruct (isEngineOn c) eqn:E.
    + rewrite shiftGear_on_eq by assumption. reflexivity.
    + rewrite shiftGear_off_eq by assumption. reflexivity.
  - destruct (isEngineOn c) eqn:E.
    + rewrite accelerate_on_eq by assumption. reflexivity.
    + rewrite accelerate_off_eq by assumption. reflexivity.
  - rewrite brake_eq. reflexivity.
  - rewrite stopEngine_eq. reflexivity.
Qed.

Lemma invoke_identity (call : Call) (c : t) :
  brand (exec (invoke call) c) = brand c /\
  model (exec (invoke call) c) = model c.
Proof.
  rewrite exec_invoke.
  destruct call; try destruct (isEngineOn c); split; reflexivity.
Qed.

Lemma script_identity (cs : list Call) (c : t) :
  brand (exec (script cs) c) = brand c /\
  model (exec (script cs) c) = model c.
Proof.
  apply (script_preserves (fun c' => brand c' = brand c /\ model c' = model c)).
  - intros call c' [Hb Hm].
    destruct (invoke_identity call c') as [Hb' Hm']. split; congruence.
  - split; reflexivity.
Qed.

(** X1. No sequence of calls changes the brand or the model the vehicle
    was constructed with. *)
Theorem identity_never_changes (cs : list Call) (c : t) :
  brand (exec (script cs) c) = brand c /\
  model (exec (script cs) c) = model c.
Proof. apply script_identity. Qed.

(** X2. With the engine running and a sum within 2^53 of zero, where it
    is exact, [accelerate] adds exactly 20 to the speed, leaves the
    gear, the engine flag and the identity alone, and logs one line
    that carries the new speed. *)
Theorem accelerate_engine_on (c : t) :
  isEngineOn c = true ->
  - 2 ^ 53 <= currentSpeed c + 20 <= 2 ^ 53 ->
  exec SportsCar.accelerate c
  = mk (brand c) (model c) true (currentSpeed c + 20) (currentGear c)
  /\
  output SportsCar.accelerate c
  = [(brand c ++ " " ++ model c ++ " : accelerating to gear "
      ++ number_toString (currentSpeed c + 20) ++ " km/h.")%string].
Proof.
  intros Hon Hs. unfold exec, output. rewrite accelerate_on_eq by assumption.
  rewrite add_exact by lia.
  cbn [fst snd]. unfold set_currentSpeed. rewrite Hon. split; reflexivity.
Qed.

Lemma accelerate_engine_on_witness :
  isEngineOn (mk "Ford" "Mustang" true 20 2) = true /\
  - 2 ^ 53 <= currentSpeed (mk "Ford" "Mustang" true 20 2) + 20 <= 2 ^ 53 /\
  exec SportsCar.accelerate (mk "Ford" "Mustang" true 20 2)
  = mk "Ford" "Mustang" true 40 2 /\
  output SportsCar.accelerate (mk "Ford" "Mustang" true 20 2)
  = ["Ford Mustang : accelerating to gear 40 km/h."].
Proof.
  split; [reflexivity |]. split; [cbn; lia |].
  apply (accelerate_engine_on (mk "Ford" "Mustang" true 20 2)).
  - reflexivity.
  - cbn; lia.
Defined.

(** X3. With the engine running and the gear at anything but 6 between
    -2^53 and 2^53 (so also at 7 and above), [shiftGear] logs only the
    "Shifted to gear" line, and the gear becomes the smaller of the
    gear plus one and 2^53: the advisory is tied to gear 6 exactly, and
    at 2^53 the gear no longer moves. *)
Theorem shiftGear_engine_on_not_six (c : t) :
  isEngineOn c = true ->
  currentGear c <> 6 ->
  - 2 ^ 53 <= currentGear c <= 2 ^ 53 ->
  exec SportsCar.shiftGear c
  = mk (brand c) (model c) true (currentSpeed c)
       (Z.min (currentGear c + 1) (2 ^ 53))
  /\
  output SportsCar.shiftGear c
  = [(brand c ++ " " ++ model c ++ " : Shifted to gear "
      ++ number_toString (Z.min (currentGear c + 1) (2 ^ 53)))%string].
Proof.
  intros Hon Hsix Hg. unfold exec, output.
  rewrite shiftGear_on_eq by assumption.
  rewrite gear_up by assumption.
  cbn [fst snd]. unfold set_currentGear. rewrite Hon.
  destruct (Z.eqb_spec (currentGear c) 6) as [E | _]; [contradiction |].
  split; reflexivity.
Qed.

Lemma shiftGear_engine_on_not_six_witness :
  isEngineOn (mk "Ford" "Mustang" true 0 7) = true /\
  currentGear (mk "Ford" "Mustang" true 0 7) <> 6 /\
  - 2 ^ 53 <= currentGear (mk "Ford" "Mustang" true 0 7) <= 2 ^ 53 /\
  exec SportsCar.shiftGear (mk "Ford" "Mustang" true 0 7)
  = mk "Ford" "Mustang" true 0 8 /\
  output SportsCar.shiftGear (mk "Ford" "Mustang" true 0 7)
  = ["Ford Mustang : Shifted to gear 8"].
Proof.
  split; [reflexivity |]. split; [cbn; lia |]. split; [cbn; lia |].
  apply (shiftGear_engine_on_not_six (mk "Ford" "Mustang" true 0 7)).
  - reflexivity.
  - cbn; lia.
  - cbn; lia.
Defined.

(** One call other than [startEngine], on a vehicle whose engine is off,
    with bounds [smax] and [gmax] that are numbers. *)
Lemma invoke_engine_off (call : Call) (c : t) (smax gmax : Z) :
  Number.round smax = smax -> Number.round gmax = gmax -> 0 <= gmax ->
  call <> StartEngine ->
  isEngineOn c = false ->
  0 <= currentSpeed c <= smax ->
  currentGear c <= gmax ->
  isEngineOn (exec (invoke call) c) = false /\
  0 <= currentSpeed (exec (invoke call) c) <= smax /\
  currentGear (exec (invoke call) c) <= gmax.
Proof.
  intros Hsmax Hgmax Hg0 Hcall Hoff Hs Hg. rewrite exec_invoke.
  destruct call; try contradiction; try rewrite Hoff;
    cbn [isEngineOn currentSpeed currentGear].
  - repeat split; try assumption; lia.
  - repeat split; try assumption; lia.
  - repeat split.
    + apply braked_nonneg.
    + apply braked_le; try assumption; lia.
    + unfold Number.sub. rewrite <- Hgmax. apply round_mono. lia.
  - repeat split; lia.
Qed.

Lemma script_engine_off (cs : list Call) (smax gmax : Z) :
  Number.round smax = smax -> Number.round gmax = gmax -> 0 <= gmax ->
  ~ In StartEngine cs ->
  forall c : t,
    isEngineOn c = false ->
    0 <= currentSpeed c <= smax ->
    currentGear c <= gmax ->
    isEngineOn (exec (script cs) c) = false /\
    0 <= currentSpeed (exec (script cs) c) <= smax /\
    currentGear (exec (script cs) c) <= gmax.
Proof.
  intros Hsmax Hgmax Hg0.
  induction cs as [|call cs IH]; intros Hin c Hoff Hs Hg.
  - rewrite exec_script_nil. repeat split; try assumption; lia.
  - rewrite exec_script_cons.
    assert (Hcall : call <> StartEngine)
      by (intros ->; apply Hin; left; reflexivity).
    destruct (invoke_engine_off call c smax gmax) as (Hoff' & Hs' & Hg');
      try assumption.
    apply IH; try assumption.
    intros Hin'. apply Hin. right. exact Hin'.
Qed.

(** X4. While the engine is off and [startEngine] is not called, the
    vehicle cannot speed up or shift up: after any such sequence of
    calls the engine is still off, the speed is between 0 and what it
    was, and the gear is at most what it was (or 0, after a
    [stopEngine]).  The state is one the class can hold: its speed and
    gear are numbers. *)
Theorem engine_off_never_speeds_up (cs : list Call) (c : t) :
  ~ In StartEngine cs ->
  isEngineOn c = false ->
  0 <= currentSpeed c ->
  valid c = true ->
  isEngineOn (exec (script cs) c) = false /\
  0 <= currentSpeed (exec (script cs) c) <= currentSpeed c /\
  currentGear (exec (script cs) c) <= Z.max 0 (currentGear c).
Proof.
  intros Hin Hoff Hs Hvalid.
  unfold valid in Hvalid. apply andb_true_iff in Hvalid.
  destruct Hvalid as [Hvs Hvg].
  apply is_number_round in Hvs. apply is_number_round in Hvg.
  apply (script_engine_off cs (currentSpeed c) (Z.max 0 (currentGear c)));
    try assumption; try lia.
  destruct (Z.max_spec 0 (currentGear c)) as [[_ ->] | [_ ->]];
    [exact Hvg | reflexivity].
Qed.

Lemma engine_off_never_speeds_up_witness :
  ~ In StartEngine [Accelerate; ShiftGear; Brake; Accelerate] /\
  isEngineOn (mk "Ford" "Mustang" false 40 2) = false /\
  0 <= currentSpeed (mk "Ford" "Mustang" false 40 2) /\
  valid (mk "Ford" "Mustang" false 40 2) = true /\
  isEngineOn (exec (script [Accelerate; ShiftGear; Brake; Accelerate])
                (mk "Ford" "Mustang" false 40 2)) = false /\
  0 <= currentSpeed (exec (script [Accelerate; ShiftGear; Brake; Accelerate])
                       (mk "Ford" "Mustang" false 40 2))
    <= currentSpeed (mk "Ford" "Mustang" false 40 2) /\
  currentGear (exec (script [Accelerate; ShiftGear; Brake; Accelerate])
                 (mk "Ford" "Mustang" false 40 2))
    <= Z.max 0 (currentGear (mk "Ford" "Mustang" false 40 2)).
Proof.
  assert (Hin : ~ In StartEngine [Accelerate; ShiftGear; Brake; Accelerate]).
  { cbn. intros [H | [H | [H | [H | H]]]];
      try discriminate H; exact H. }
  split; [exact Hin |]. split; [reflexivity |]. split; [cbn; lia |].
  split; [vm_compute; reflexivity |].
  apply (engine_off_never_speeds_up
           [Accelerate; ShiftGear; Brake; Accelerate]
           (mk "Ford" "Mustang" false 40 2) Hin).
  - reflexivity.
  - cbn; lia.
  - vm_compute; reflexivity.
Defined.

(** X5. Whatever calls came before, a run that ends with [stopEngine]
    leaves the vehicle exactly as its constructor made it: engine off,
    speed 0, gear 0, same brand and model. *)
Theorem run_ending_with_stop (cs : list Call) (c : t) :
  exec (script (cs ++ [StopEngine])) c = new (brand c) (model c).
Proof.
  rewrite exec_script_app, exec_script_cons, exec_script_nil, exec_invoke.
  destruct (script_identity cs c) as [Hb Hm].
  unfold new. rewrite Hb, Hm. reflexivity.
Qed.

(** X6. On a fresh vehicle, as long as the sequence holds fewer than
    1801439850948199 calls of [accelerate] (20 times their number is
    below 2^55), the speed never exceeds 20 times the number of
    [accelerate] calls made; and, whatever the sequence, the gear never
    exceeds the number of [shiftGear] calls and never falls below minus
    the number of [brake] calls. *)
Theorem run_bounded_by_call_counts (b m : string) (cs : list Call) :
  20 * count_calls Accelerate cs < 2 ^ 55 ->
  0 <= currentSpeed (exec (script cs) (new b m))
    <= 20 * count_calls Accelerate cs
  /\
  - count_calls Brake cs
    <= currentGear (exec (script cs) (new b m))
    <= count_calls ShiftGear cs.
Proof.
  intros Hlim.
  destruct (script_counts cs (new b m) 0 0 0) as (Hs & _ & Hg & _);
    cbn [new currentSpeed currentGear]; try lia.
  apply Z.divide_0_r.
Qed.

Lemma run_bounded_by_call_counts_witness :
  20 * count_calls Accelerate driver_calls < 2 ^ 55 /\
  0 <= currentSpeed (exec (script driver_calls) (new "Ford" "Mustang"))
    <= 20 * count_calls Accelerate driver_calls /\
  - count_calls Brake driver_calls
    <= currentGear (exec (script driver_calls) (new "Ford" "Mustang"))
    <= count_calls ShiftGear driver_calls.
Proof.
  split; [vm_compute; reflexivity |].
  apply (run_bounded_by_call_counts "Ford" "Mustang" driver_calls).
  vm_compute. reflexivity.
Defined.

(** [n] calls of [shiftGear] in a row with the engine on: the gear goes
    up by one each time until it reaches 2^53, and stays there. *)
Lemma shift_repeatedly (n : nat) :
  forall c : t,
    isEngineOn c = true ->
    - 2 ^ 53 <= currentGear c <= 2 ^ 53 ->
    exec (script (repeat ShiftGear n)) c
    = set_currentGear (Z.min (currentGear c + Z.of_nat n) (2 ^ 53)) c.
Proof.
  induction n as [|n IH]; intros c Hon Hg.
  - cbn [repeat]. rewrite exec_script_nil. destruct c as [b m on s g].
    unfold set_currentGear.
    cbn [currentGear brand model isEngineOn currentSpeed Z.of_nat] in *.
    f_equal. lia.
  - cbn [repeat]. rewrite exec_script_cons, exec_invoke, Hon.
    rewrite gear_up by assumption.
    rewrite IH.
    + unfold set_currentGear.
      cbn [currentGear brand model isEngineOn currentSpeed].
      f_equal. lia.
    + exact Hon.
    + cbn [currentGear set_currentGear]. lia.
Qed.

(** X7. On a fresh vehicle, [startEngine] followed by [n] calls of
    [shiftGear] and [k] calls of [accelerate], with [20 * k] below 2^55,
    leaves the speed at [20 * k] and the gear at the smaller of [n] and
    2^53: the gear has no limit at 6, and stops at 2^53. *)
Theorem shift_and_accelerate_repeatedly (b m : string) (n k : nat) :
  20 * Z.of_nat k < 2 ^ 55 ->
  exec (script (StartEngine :: repeat ShiftGear n ++ repeat Accelerate k))
       (new b m)
  = mk b m true (20 * Z.of_nat k) (Z.min (Z.of_nat n) (2 ^ 53)).
Proof.
  intros Hk.
  rewrite exec_script_cons, exec_script_app, exec_invoke.
  rewrite shift_repeatedly by (try reflexivity; cbn; lia).
  rewrite accelerate_exact_run.
  - reflexivity.
  - reflexivity.
  - cbn; lia.
  - cbn [currentSpeed set_currentGear set_isEngineOn new].
    apply Z.divide_0_r.
  - cbn [currentSpeed set_currentGear set_isEngineOn new]. lia.
Qed.

Lemma shift_and_accelerate_repeatedly_witness :
  20 * Z.of_nat 2 < 2 ^ 55 /\
  exec (script (StartEngine :: repeat ShiftGear 8 ++ repeat Accelerate 2))
       (new "Ford" "Mustang")
  = mk "Ford" "Mustang" true 40 8.
Proof.
  split; [vm_compute; reflexivity |].
  apply (shift_and_accelerate_repeatedly "Ford" "Mustang" 8 2).
  vm_compute. reflexivity.
Defined.

(** X8. With the engine running, a speed between 0 and 2^53 - 20 and a
    gear from -2^53 to below 2^53, one [accelerate] and one [shiftGear]
    followed by one [brake] bring the vehicle back to the state it was
    in: [brake] undoes exactly one of each. *)
Theorem brake_undoes_accelerate_and_shift (c : t) :
  isEngineOn c = true ->
  0 <= currentSpeed c <= 2 ^ 53 - 20 ->
  - 2 ^ 53 <= currentGear c < 2 ^ 53 ->
  exec (script [Accelerate; ShiftGear; Brake]) c = c.
Proof.
  intros Hon Hs Hg.
  rewrite !exec_script_cons, exec_script_nil, !exec_invoke.
  destruct c as [b m on s g].
  cbn [isEngineOn currentSpeed currentGear brand model] in *. subst on.
  cbn [isEngineOn currentSpeed currentGear brand model set_currentSpeed
       set_currentGear].
  rewrite (add_exact s 20) by lia. rewrite (add_exact g 1) by lia.
  rewrite braked_exact by lia. rewrite sub_exact by lia.
  f_equal; lia.
Qed.

Lemma brake_undoes_accelerate_and_shift_witness :
  isEngineOn (mk "Ford" "Mustang" true 20 1) = true /\
  0 <= currentSpeed (mk "Ford" "Mustang" true 20 1) <= 2 ^ 53 - 20 /\
  - 2 ^ 53 <= currentGear (mk "Ford" "Mustang" true 20 1) < 2 ^ 53 /\
  exec (script [Accelerate; ShiftGear; Brake]) (mk "Ford" "Mustang" true 20 1)
  = mk "Ford" "Mustang" true 20 1.
Proof.
  split; [reflexivity |]. split; [cbn; lia |]. split; [cbn; lia |].
  apply (brake_undoes_accelerate_and_shift (mk "Ford" "Mustang" true 20 1)).
  - reflexivity.
  - cbn; lia.
  - cbn; lia.
Defined.

(** X9. Braking [n] times in a row, from a speed between 0 and 2^53 and
    a gear between -2^53 and 2^53, leaves the larger of 0 and the speed
    minus [20 * n], and the larger of the gear minus [n] and -2^53: the
    gear has no limit at 0, and stops at -2^53.  The engine flag plays
    no part. *)
Theorem brake_repeatedly (n : nat) (c : t) :
  0 <= currentSpeed c <= 2 ^ 53 ->
  - 2 ^ 53 <= currentGear c <= 2 ^ 53 ->
  exec (script (repeat Brake n)) c
  = mk (brand c) (model c) (isEngineOn c)
       (Z.max 0 (currentSpeed c - 20 * Z.of_nat n))
       (Z.max (currentGear c - Z.of_nat n) (- 2 ^ 53)).
Proof.
  revert c. induction n as [|n IH]; intros c Hs Hg.
  - cbn [repeat]. rewrite exec_script_nil. destruct c as [b m on s g].
    cbn [currentGear brand model isEngineOn currentSpeed Z.of_nat] in *.
    f_equal; lia.
  - cbn [repeat]. rewrite exec_script_cons, exec_invoke.
    rewrite braked_exact by lia. rewrite gear_down by assumption.
    rewrite IH by (cbn [currentSpeed currentGear]; lia).
    cbn [currentGear brand model isEngineOn currentSpeed].
    f_equal; lia.
Qed.

Lemma brake_repeatedly_witness :
  0 <= currentSpeed (mk "Ford" "Mustang" false 40 1) <= 2 ^ 53 /\
  - 2 ^ 53 <= currentGear (mk "Ford" "Mustang" false 40 1) <= 2 ^ 53 /\
  exec (script (repeat Brake 3)) (mk "Ford" "Mustang" false 40 1)
  = mk "Ford" "Mustang" false 0 (-2).
Proof.
  split; [cbn; lia |]. split; [cbn; lia |].
  apply (brake_repeatedly 3 (mk "Ford" "Mustang" false 40 1)).
  - cbn; lia.
  - cbn; lia.
Defined.

Lemma invoke_within_limits (call : Call) (c : t) :
  - 2 ^ 53 <= currentGear c <= 2 ^ 53 /\ 0 <= currentSpeed c <= 2 ^ 58 ->
  - 2 ^ 53 <= currentGear (exec (invoke call) c) <= 2 ^ 53 /\
  0 <= currentSpeed (exec (invoke call) c) <= 2 ^ 58.
Proof.
  intros [Hg Hs]. rewrite exec_invoke.
  destruct call.
  - cbn [currentSpeed currentGear set_isEngineOn]. split; assumption.
  - destruct (isEngineOn c); cbn [currentSpeed currentGear set_currentGear];
      [| split; assumption].
    rewrite gear_up by assumption. split; [lia | assumption].
  - destruct (isEngineOn c); cbn [currentSpeed currentGear set_currentSpeed];
      [| split; assumption].
    split; [assumption |]. split.
    + apply round_nonneg. lia.
    + rewrite <- add_20_at_ceiling. apply round_mono. lia.
  - cbn [currentSpeed currentGear].
    rewrite gear_down by assumption. split; [lia |]. split.
    + apply braked_nonneg.
    + apply braked_le; [reflexivity | lia | lia].
  - cbn [currentSpeed currentGear]. lia.
Qed.

(** X13. On a fresh vehicle no sequence of calls takes the gear outside
    -2^53 .. 2^53 or the speed outside 0 .. 2^58: beyond these the sums
    and differences are rounded back. *)
Theorem run_stays_within_limits (b m : string) (cs : list Call) :
  - 2 ^ 53 <= currentGear (exec (script cs) (new b m)) <= 2 ^ 53 /\
  0 <= currentSpeed (exec (script cs) (new b m)) <= 2 ^ 58.
Proof.
  apply (script_preserves
           (fun c => - 2 ^ 53 <= currentGear c <= 2 ^ 53 /\
                     0 <= currentSpeed c <= 2 ^ 58)).
  - intros call c. apply invoke_within_limits.
  - cbn [new currentGear currentSpeed]. lia.
Qed.

Lemma is_number_braked (s : Z) :
  Number.is_number s = true -> Number.is_number (braked s) = true.
Proof.
  intros Hs. unfold braked.
  destruct (Number.sub s 20 <? 0); [reflexivity |].
  unfold Number.sub. change (s - 20) with (s + (-20)).
  apply is_number_step; [lia | exact Hs].
Qed.

Lemma invoke_valid (call : Call) (c : t) :
  valid c = true -> valid (exec (invoke call) c) = true.
Proof.
  unfold valid. rewrite !andb_true_iff. intros [Hs Hg].
  rewrite exec_invoke. destruct call.
  - cbn [currentSpeed currentGear set_isEngineOn]. split; assumption.
  - destruct (isEngineOn c); cbn [currentSpeed currentGear set_currentGear];
      [| split; assumption].
    split; [assumption |]. apply is_number_step; [lia | exact Hg].
  - destruct (isEngineOn c); cbn [currentSpeed currentGear set_currentSpeed];
      [| split; assumption].
    split; [| assumption]. apply is_number_step; [lia | exact Hs].
  - cbn [currentSpeed currentGear]. split.
    + apply is_number_braked, Hs.
    + unfold Number.sub. change (currentGear c - 1) with (currentGear c + (-1)).
      apply is_number_step; [lia | exact Hg].
  - cbn [currentSpeed currentGear]. split; reflexivity.
Qed.

(** X14. The two numeric fields always hold integer-valued finite
    numbers: a state of that kind, the fresh one among them, stays of
    that kind under every sequence of calls. *)
Theorem valid_is_kept (cs : list Call) (c : t) :
  valid c = true -> valid (exec (script cs) c) = true.
Proof.
  intros Hc.
  apply (script_preserves (fun c' => valid c' = true)).
  - intros call c'. apply invoke_valid.
  - exact Hc.
Qed.

Lemma valid_is_kept_witness :
  valid (new "Ford" "Mustang") = true /\
  valid (exec (script driver_calls) (new "Ford" "Mustang")) = true.
Proof.
  split; [vm_compute; reflexivity |].
  apply (valid_is_kept driver_calls (new "Ford" "Mustang")).
  vm_compute; reflexivity.
Defined.

Lemma invoke_line_count (call : Call) (c : t) :
  length (output (invoke call) c) = lines_of call c.
Proof.
  rewrite output_invoke. unfold lines_of.
  destruct call; try reflexivity.
  - destruct (isEngineOn c); cbn [andb]; [| reflexivity].
    destruct (currentGear c =? 6); reflexivity.
  - destruct (isEngineOn c); reflexivity.
Qed.

Lemma lines_of_bounds (call : Call) (c : t) :
  (1 <= lines_of call c
   <= 1 + length (filter (Call_eqb ShiftGear) [call]))%nat.
Proof.
  unfold lines_of.
  destruct call; cbn [filter Call_eqb length]; try lia.
  destruct (isEngineOn c && (currentGear c =? 6)); lia.
Qed.

(** X10. Every call logs exactly one line, except [shiftGear] with the
    engine on and the gear at 6, which logs two.  So a run of calls logs
    at least one line per call, and at most one more per [shiftGear]
    call. *)
Theorem transcript_line_count :
  (forall (call : Call) (c : t),
      length (output (invoke call) c)
      = if Call_eqb call ShiftGear && isEngineOn c && (currentGear c =? 6)
        then 2%nat else 1%nat)
  /\
  (forall (cs : list Call) (c : t),
      (length cs <= length (output (script cs) c)
       <= length cs + length (filter (Call_eqb ShiftGear) cs))%nat).
Proof.
  split.
  - intros call c. rewrite invoke_line_count. unfold lines_of.
    destruct call; reflexivity.
  - intros cs. induction cs as [|call cs IH]; intros c.
    + cbn. lia.
    + rewrite output_script_cons, length_app, invoke_line_count.
      pose proof (lines_of_bounds call c) as Hb.
      specialize (IH (exec (invoke call) c)).
      cbn [filter length] in *.
      destruct (Call_eqb ShiftGear call); cbn [length] in *; lia.
Qed.

Lemma prefix_append (a rest : string) : String.prefix a (a ++ rest) = true.
Proof.
  induction a as [|ch a IH]; cbn.
  - destruct rest; reflexivity.
  - destruct (Ascii.ascii_dec ch ch) as [_ | Hne]; [exact IH | now elim Hne].
Qed.

Lemma prefix_name (b m rest : string) :
  String.prefix (b ++ " " ++ m) (b ++ " " ++ m ++ rest) = true.
Proof.
  induction b as [|ch b IH]; cbn.
  - apply prefix_append.
  - destruct (Ascii.ascii_dec ch ch) as [_ | Hne]; [exact IH | now elim Hne].
Qed.

Lemma invoke_lines_named (call : Call) (c c' : t) :
  brand c' = brand c -> model c' = model c ->
  Forall (fun line => line = advisory \/ names_vehicle c line = true)
         (output (invoke call) c').
Proof.
  intros Hb Hm. rewrite output_invoke, Hb, Hm. unfold names_vehicle.
  destruct call; try destruct (isEngineOn c');
    try destruct (currentGear c' =? 6); cbn [app];
    repeat lazymatch goal with
      | |- Forall _ [] => apply Forall_nil
      | |- Forall _ (_ :: _) => apply Forall_cons
      | |- advisory = advisory \/ _ => left; reflexivity
      | |- _ \/ _ => right; apply prefix_name
      end.
Qed.

(** X11. Every line a run logs either starts with the vehicle's brand, a
    space and its model, or is the advisory "You cannot shift gear now". *)
Theorem transcript_names_vehicle (cs : list Call) (c : t) :
  Forall (fun line => line = advisory \/ names_vehicle c line = true)
         (output (script cs) c).
Proof.
  assert (G : forall cs c', brand c' = brand c -> model c' = model c ->
              Forall (fun line => line = advisory \/ names_vehicle c line = true)
                     (output (script cs) c')).
  { clear cs. induction cs as [|call cs IH]; intros c' Hb Hm.
    - constructor.
    - rewrite output_script_cons. apply Forall_app. split.
      + apply invoke_lines_named; assumption.
      + destruct (invoke_identity call c') as [Hb' Hm'].
        apply IH; congruence. }
  apply G; reflexivity.
Qed.

(** X12. For any brand [b] and model [m], the program run on
    [new SportsCar(b, m)] prints these twelve lines, in this order. *)
Theorem program_transcript (b m : string) :
  output main (new b m)
  = [ "--- Operating the Car (via the Car interface) ---";
      (b ++ " " ++ m ++ ": Engine start with a roar...")%string;
      (b ++ " " ++ m ++ " : Shifted to gear 1")%string;
      (b ++ " " ++ m ++ " : accelerating to gear 20 km/h.")%string;
      (b ++ " " ++ m ++ " : Shifted to gear 2")%string;
      (b ++ " " ++ m ++ " : accelerating to gear 40 km/h.")%string;
      (b ++ " " ++ m
       ++ " : Braking! Speed is now 20 km/h, and Gear lowered to 1")%string;
      (b ++ " " ++ m ++ " : Shifted to gear 2")%string;
      (b ++ " " ++ m ++ " : accelerating to gear 40 km/h.")%string;
      (b ++ " " ++ m ++ " : Shifted to gear 3")%string;
      (b ++ " " ++ m
       ++ " : Braking! Speed is now 20 km/h, and Gear lowered to 2")%string;
      (b ++ " " ++ m ++ " : Engine turned off.")%string ].
Proof. reflexivity. Qed.

End More.
